(** * Input masks and tax-ID checksum of the registration form

    Shallow embedding of [maskCep] and [maskCpf] (utils/maks) and of the
    [validateCPF] predicate the form imports from utils/validateCpf.

    A JavaScript string is a finite sequence of UTF-16 code units; it is
    modelled as a list of numbers.  The masks are chains of
    [String.prototype.replace] calls with regular expressions followed by
    [slice]; the fragment of regular expressions they use (anchoring, the
    classes [\d] and [\D], escaped literals, counted repetition inside
    capturing groups, the [g] flag) is given an executable semantics, and
    the masks are written call by call on top of it. *)

From Stdlib Require Import List NArith Arith Bool Lia String Ascii.
Import ListNotations.

Open Scope N_scope.

(** ** Strings as sequences of code units *)

Module JS.

Definition code_unit := N.
Definition jsstring := list code_unit.

(** Literals are written as Rocq strings and read byte by byte. *)
Definition js (s : string) : jsstring :=
  List.map N_of_ascii (list_ascii_of_string s).

Definition dot : code_unit := 46.
Definition hyphen : code_unit := 45.

(** [\d] without the unicode flag: the ten ASCII digits only. *)
Definition is_digit (c : code_unit) : bool := (48 <=? c) && (c <=? 57).

Definition is_chr (k c : code_unit) : bool := c =? k.

(** ** The regular-expression fragment *)

Inductive atom : Type :=
| Dig                      (* \d *)
| NonDig                   (* \D *)
| Chr (k : code_unit).     (* an escaped literal such as \. *)

Definition atom_match (a : atom) (c : code_unit) : bool :=
  match a with
  | Dig => is_digit c
  | NonDig => negb (is_digit c)
  | Chr k => is_chr k c
  end.

Inductive piece : Type :=
| Cap (a : atom) (n : nat)   (* a capturing group (a{n}); (a) is n = 1 *)
| Lit (a : atom).            (* an atom outside any group *)

Record regexp : Type := RegExp {
  anchored : bool;           (* the pattern starts with ^ *)
  body : list piece;
  global : bool              (* the g flag *)
}.

(** Consume exactly [n] code units matching [a]. *)
Fixpoint take_atoms (a : atom) (n : nat) (s : jsstring)
  : option (jsstring * jsstring) :=
  match n with
  | O => Some ([], s)
  | S n' =>
      match s with
      | [] => None
      | c :: s' =>
          if atom_match a c then
            match take_atoms a n' s' with
            | Some (m, rest) => Some (c :: m, rest)
            | None => None
            end
          else None
      end
  end.

(** Match the pattern at the head of [s]: the captures in order, and the
    text after the match. *)
Fixpoint match_here (ps : list piece) (s : jsstring)
  : option (list jsstring * jsstring) :=
  match ps with
  | [] => Some ([], s)
  | Lit a :: ps' =>
      match s with
      | [] => None
      | c :: s' => if atom_match a c then match_here ps' s' else None
      end
  | Cap a n :: ps' =>
      match take_atoms a n s with
      | None => None
      | Some (m, s') =>
          match match_here ps' s' with
          | None => None
          | Some (caps, rest) => Some (m :: caps, rest)
          end
      end
  end.

(** Replacement templates: [$k], for [k] among the groups of the pattern,
    and literal code units. *)
Inductive titem : Type :=
| Grp (k : nat)
| Txt (c : code_unit).

Definition template := list titem.

Definition expand (t : template) (caps : list jsstring) : jsstring :=
  flat_map (fun i => match i with
                     | Grp k => nth (k - 1) caps []
                     | Txt c => [c]
                     end) t.

(** Only the start of the string is tried. *)
Definition replace_anchored (ps : list piece) (t : template) (s : jsstring)
  : jsstring :=
  match match_here ps s with
  | Some (caps, rest) => expand t caps ++ rest
  | None => s
  end.

(** Leftmost match, replaced once. *)
Fixpoint replace_first (ps : list piece) (t : template) (s : jsstring)
  : jsstring :=
  match match_here ps s with
  | Some (caps, rest) => expand t caps ++ rest
  | None =>
      match s with
      | [] => []
      | c :: s' => c :: replace_first ps t s'
      end
  end.

(** Every match from left to right, the search resuming after each match.
    Each round consumes at least one code unit of a non-empty match or
    copies one, so [S (length s)] rounds always suffice. *)
Fixpoint replace_every (fuel : nat) (ps : list piece) (t : template)
  (s : jsstring) : jsstring :=
  match fuel with
  | O => s
  | S fuel' =>
      match match_here ps s with
      | Some (caps, rest) =>
          if (List.length rest <? List.length s)%nat
          then expand t caps ++ replace_every fuel' ps t rest
          else
            match s with
            | [] => expand t caps
            | c :: s' => expand t caps ++ c :: replace_every fuel' ps t s'
            end
      | None =>
          match s with
          | [] => []
          | c :: s' => c :: replace_every fuel' ps t s'
          end
      end
  end.

(** [s.replace(r, t)] *)
Definition replace (r : regexp) (t : template) (s : jsstring) : jsstring :=
  if anchored r then replace_anchored (body r) t s
  else if global r then replace_every (S (List.length s)) (body r) t s
  else replace_first (body r) t s.

(** [s.slice(b, e)] for [0 <= b <= e]. *)
Definition slice (b e : nat) (s : jsstring) : jsstring :=
  firstn (e - b) (skipn b s).

End JS.

Import JS.

(** ** utils/maks *)

(** [/\D/g] *)
Definition re_non_digits : regexp := RegExp false [Lit NonDig] true.

(** [/^(\d{5})(\d)/] *)
Definition re_cep : regexp := RegExp true [Cap Dig 5; Cap Dig 1] false.

(** [/^(\d{3})(\d)/] *)
Definition re_cpf1 : regexp := RegExp true [Cap Dig 3; Cap Dig 1] false.

(** [/^(\d{3})\.(\d{3})(\d)/] *)
Definition re_cpf2 : regexp :=
  RegExp true [Cap Dig 3; Lit (Chr dot); Cap Dig 3; Cap Dig 1] false.

(** [/\.(\d{3})(\d)/] *)
Definition re_cpf3 : regexp :=
  RegExp false [Lit (Chr dot); Cap Dig 3; Cap Dig 1] false.

Definition maskCep (cep : jsstring) : jsstring :=
  slice 0 9
    (replace re_cep [Grp 1; Txt hyphen; Grp 2]
       (replace re_non_digits [] cep)).

Definition maskCpf (cpf : jsstring) : jsstring :=
  slice 0 14
    (replace re_cpf3 [Txt dot; Grp 1; Txt hyphen; Grp 2]
       (replace re_cpf2 [Grp 1; Txt dot; Grp 2; Txt dot; Grp 3]
          (replace re_cpf1 [Grp 1; Txt dot; Grp 2]
             (replace re_non_digits [] cpf)))).

(** ** Vocabulary of the specification *)

(** The digit sequence of a raw input: every non-digit removed. *)
Definition strip (s : jsstring) : jsstring := filter is_digit s.

Definition is_sep (c : code_unit) : bool := is_chr dot c || is_chr hyphen c.

(** Stripping the separators of a masked value. *)
Definition unpunctuate (s : jsstring) : jsstring :=
  filter (fun c => negb (is_sep c)) s.

(** Walk the digits from index [i] (0-based), printing [sep j] in front of
    the digit of index [j]: a separator that stands after digit [j] shows
    up once digit [j + 1] is there. *)
Fixpoint punctuate (sep : nat -> jsstring) (i : nat) (ds : jsstring)
  : jsstring :=
  match ds with
  | [] => []
  | d :: ds' => sep i ++ d :: punctuate sep (S i) ds'
  end.

(** NNN.NNN.NNN-NN *)
Definition cpf_sep (i : nat) : jsstring :=
  match i with
  | 3%nat | 6%nat => [dot]
  | 9%nat => [hyphen]
  | _ => []
  end.

(** NNNNN-NNN *)
Definition cep_sep (i : nat) : jsstring :=
  match i with
  | 5%nat => [hyphen]
  | _ => []
  end.

Definition cpf_layout (ds : jsstring) : jsstring := punctuate cpf_sep 0 ds.
Definition cep_layout (ds : jsstring) : jsstring := punctuate cep_sep 0 ds.

(** The same layout group by group: each separator appears once the
    first digit of the next group is present. *)
Definition cpf_groups (ds : jsstring) : jsstring :=
  let n := List.length ds in
  firstn 3 ds
  ++ (if (4 <=? n)%nat then dot :: firstn 3 (skipn 3 ds) else [])
  ++ (if (7 <=? n)%nat then dot :: firstn 3 (skipn 6 ds) else [])
  ++ (if (10 <=? n)%nat then hyphen :: skipn 9 ds else []).

(** "Inserted after the 3rd digit once present", read to the letter: the
    separator is printed right behind the digit it follows, as soon as
    that digit is there. *)
Fixpoint punctuate_behind (sep : nat -> jsstring) (i : nat) (ds : jsstring)
  : jsstring :=
  match ds with
  | [] => []
  | d :: ds' => d :: sep (S i) ++ punctuate_behind sep (S i) ds'
  end.

Definition cpf_layout_eager (ds : jsstring) : jsstring :=
  firstn 14 (punctuate_behind cpf_sep 0 (firstn 11 ds)).

(** The three steps of the postal-code algorithm, in the words of the
    specification. *)
Definition postal_steps (s : jsstring) : jsstring :=
  let ds := strip s in
  let hyphenated :=
    if (6 <=? List.length ds)%nat
    then firstn 5 ds ++ hyphen :: skipn 5 ds
    else ds in
  firstn 9 hyphenated.

(** Indices at which [c] occurs in [s], counted from [i]. *)
Fixpoint positions_from (i : nat) (c : code_unit) (s : jsstring)
  : list nat :=
  match s with
  | [] => []
  | x :: s' =>
      if is_chr c x then i :: positions_from (S i) c s'
      else positions_from (S i) c s'
  end.

Definition positions (c : code_unit) (s : jsstring) : list nat :=
  positions_from 0 c s.

(** Only digits, dots and hyphens. *)
Definition mask_charset (s : jsstring) : bool :=
  forallb (fun c => is_digit c || is_sep c) s.

(** Every separator is immediately followed by a digit. *)
Fixpoint seps_lead_digits (s : jsstring) : bool :=
  match s with
  | [] => true
  | c :: s' =>
      (if is_sep c
       then match s' with
            | d :: _ => is_digit d
            | [] => false
            end
       else true) && seps_lead_digits s'
  end.

Fixpoint ends_in_sep (s : jsstring) : bool :=
  match s with
  | [] => false
  | [c] => is_sep c
  | _ :: s' => ends_in_sep s'
  end.

(** A separator table prints nothing or one separator at each index. *)
Definition sep_table (sep : nat -> jsstring) : Prop :=
  forall j, sep j = [] \/ exists c, sep j = [c] /\ is_sep c = true.

(** ** utils/validateCpf *)

Definition digit_value (c : code_unit) : N := c - 48.

(** Digit [i] (1-based) times [w + 1 - i], summed. *)
Fixpoint weighted_sum (w : N) (ds : jsstring) : N :=
  match ds with
  | [] => 0
  | d :: ds' => digit_value d * w + weighted_sum (w - 1) ds'
  end.

Definition check_digit (sum : N) : N :=
  let remainder := sum mod 11 in
  if remainder <? 2 then 0 else 11 - remainder.

Definition all_identical (ds : jsstring) : bool :=
  match ds with
  | [] => true
  | d :: ds' => forallb (N.eqb d) ds'
  end.

Definition first_check (ds : jsstring) : bool :=
  check_digit (weighted_sum 10 (firstn 9 ds)) =? digit_value (nth 9 ds 0).

Definition second_check (ds : jsstring) : bool :=
  check_digit (weighted_sum 11 (firstn 10 ds)) =? digit_value (nth 10 ds 0).

(** Modelled from the spec: [validateCPF], which the form imports from
    utils/validateCpf and the specification calls [isValidTaxId]; that
    file is not among the sources.  Non-digits are stripped, a digit
    sequence whose length is not 11 or whose 11 digits are identical is
    rejected, and then both modulo-11 check digits must agree. *)
Definition validateCPF (cpf : jsstring) : bool :=
  let ds := strip cpf in
  if negb (List.length ds =? 11)%nat then false
  else if all_identical ds then false
  else first_check ds && second_check ds.

(** The [cpf] and [cep] rules of [registerSchema]:
    [z.string().min(14, ...).refine((cpf) => validateCPF(cpf), ...)] and
    [z.string().min(9, ...)].  A value passes when no check complains. *)
Definition schema_cpf (cpf : jsstring) : bool :=
  (14 <=? List.length cpf)%nat && validateCPF cpf.

Definition schema_cep (cep : jsstring) : bool :=
  (9 <=? List.length cep)%nat.

(** The checksum rule alone, spelled with the weight tables of the
    specification. *)
Definition dot_product (ws vs : list N) : N :=
  fold_right N.add 0 (List.map (fun wv => fst wv * snd wv) (combine ws vs)).

Definition expected_digit (ws : list N) (ds : jsstring) : N :=
  let remainder := dot_product ws (List.map digit_value ds) mod 11 in
  if remainder <? 2 then 0 else 11 - remainder.

Definition passes_checksum (ds : jsstring) : Prop :=
  expected_digit [10; 9; 8; 7; 6; 5; 4; 3; 2] ds = digit_value (nth 9 ds 0)
  /\ expected_digit [11; 10; 9; 8; 7; 6; 5; 4; 3; 2] ds
     = digit_value (nth 10 ds 0).

Definition digits (s : jsstring) : Prop :=
  Forall (fun c => is_digit c = true) s.

(** ** RegisterForm: the field handlers *)

(** The [cpf] rule of the schema with its refinement left open. *)
Definition cpf_rule (validate : jsstring -> bool) (cpf : jsstring) : bool :=
  (14 <=? List.length cpf)%nat && validate cpf.

Definition viacep_prefix : jsstring := js "https://viacep.com.br/ws/".
Definition viacep_suffix : jsstring := js "/json".

(** The properties [handleCepChange] reads from [res.data]; [value] is
    whatever a property of the reply may hold. *)
Record viacep (value : Type) : Type := Viacep {
  localidade : value;
  uf : value;
  logradouro : value;
  bairro : value;
  complemento : value
}.

Arguments Viacep {value}.
Arguments localidade {value}.
Arguments uf {value}.
Arguments logradouro {value}.
Arguments bairro {value}.
Arguments complemento {value}.

(** What [await axios.get(url)] and the reading of [res.data] come to:
    the body is there, or an exception reaches the [catch] block (the
    request was rejected, or the body has no properties to read). *)
Inductive reply (value : Type) : Type :=
| Data (d : viacep value)
| Rejected.

Arguments Data {value}.
Arguments Rejected {value}.

(** The part of the form the handlers touch: the stored [cpf] and [cep]
    texts, the five address fields, the [loadingCep] flag, and the number
    of [console.error] calls. *)
Record form (value : Type) : Type := Form {
  cpf_value : jsstring;
  cep_value : jsstring;
  city : value;
  state : value;
  street : value;
  neighborhood : value;
  complement : value;
  loadingCep : bool;
  logged : nat
}.

Arguments Form {value}.
Arguments cpf_value {value}.
Arguments cep_value {value}.
Arguments city {value}.
Arguments state {value}.
Arguments street {value}.
Arguments neighborhood {value}.
Arguments complement {value}.
Arguments loadingCep {value}.
Arguments logged {value}.

Inductive effect (value : Type) : Type :=
| SetLoadingCep (b : bool)          (* setLoadingCep(b) *)
| AxiosGet (url : jsstring)         (* axios.get(url) *)
| SetCpf (v : jsstring)             (* setValue('cpf', v) *)
| SetCep (v : jsstring)             (* setValue('cep', v) *)
| SetCity (v : value)               (* setValue('city', v) *)
| SetState (v : value)              (* setValue('state', v) *)
| SetStreet (v : value)             (* setValue('street', v) *)
| SetNeighborhood (v : value)       (* setValue('neighborhood', v) *)
| SetComplement (v : value)         (* setValue('complement', v) *)
| ConsoleError.                     (* console.error(...) *)

Arguments SetLoadingCep {value}.
Arguments AxiosGet {value}.
Arguments SetCpf {value}.
Arguments SetCep {value}.
Arguments SetCity {value}.
Arguments SetState {value}.
Arguments SetStreet {value}.
Arguments SetNeighborhood {value}.
Arguments SetComplement {value}.
Arguments ConsoleError {value}.

(** One call of [handleCepChange] run to its end, as the effects it
    performs in order; [get] stands for the service. *)
Definition handleCepChange {value : Type} (get : jsstring -> reply value)
  (cep : jsstring) : list (effect value) :=
  let cleanCep := replace re_non_digits [] cep in
  if (List.length cleanCep =? 8)%nat then
    let url := viacep_prefix ++ cleanCep ++ viacep_suffix in
    [SetLoadingCep true; AxiosGet url]
    ++ match get url with
       | Data d =>
           [SetCity (localidade d); SetState (uf d);
            SetStreet (logradouro d); SetNeighborhood (bairro d);
            SetComplement (complemento d)]
       | Rejected => [ConsoleError]
       end
    ++ [SetLoadingCep false]
  else [].

(** [onChange] of the CPF field: [setValue('cpf', e.target.value)]. *)
Definition onChangeCpf {value : Type} (v : jsstring) : list (effect value) :=
  [SetCpf v].

(** [onChange] of the CEP field: the value is stored, then looked up. *)
Definition onChangeCep {value : Type} (get : jsstring -> reply value)
  (v : jsstring) : list (effect value) :=
  SetCep v :: handleCepChange get v.

Definition step {value : Type} (st : form value) (e : effect value)
  : form value :=
  let '(Form cpf cep ci sa sr nb co ld lg) := st in
  match e with
  | SetLoadingCep b => Form cpf cep ci sa sr nb co b lg
  | AxiosGet _ => st
  | SetCpf v => Form v cep ci sa sr nb co ld lg
  | SetCep v => Form cpf v ci sa sr nb co ld lg
  | SetCity v => Form cpf cep v sa sr nb co ld lg
  | SetState v => Form cpf cep ci v sr nb co ld lg
  | SetStreet v => Form cpf cep ci sa v nb co ld lg
  | SetNeighborhood v => Form cpf cep ci sa sr v co ld lg
  | SetComplement v => Form cpf cep ci sa sr nb v ld lg
  | ConsoleError => Form cpf cep ci sa sr nb co ld (S lg)
  end.

Definition run {value : Type} (es : list (effect value)) (st : form value)
  : form value :=
  fold_left step es st.

(** The URLs requested, in order. *)
Definition requests {value : Type} (es : list (effect value))
  : list jsstring :=
  flat_map (fun e => match e with AxiosGet u => [u] | _ => [] end) es.

(** What the two fields show: [value={maskCpf(watch('cpf'))}] and
    [value={maskCep(watch('cep'))}]. *)
Definition shownCpf {value : Type} (st : form value) : jsstring :=
  maskCpf (cpf_value st).

Definition shownCep {value : Type} (st : form value) : jsstring :=
  maskCep (cep_value st).


(** * Properties *)

Example maskCpf_garbage :
  maskCpf (js " 1a1b1-.444x77.73-5999") = js "111.444.777-35".
Proof. vm_compute. reflexivity. Qed.

Example validateCPF_good : validateCPF (js "111.444.777-35") = true.
Proof. vm_compute. reflexivity. Qed.

Example validateCPF_bad : validateCPF (js "123.456.789-00") = false.
Proof. vm_compute. reflexivity. Qed.

Example validateCPF_same : validateCPF (js "111.111.111-11") = false.
Proof. vm_compute. reflexivity. Qed.

Example maskCpf_typing :
  List.map maskCpf
    [js ""; js "1"; js "111"; js "1114"; js "111444"; js "1114447";
     js "111444777"; js "1114447773"; js "111444777359"]
  = [js ""; js "1"; js "111"; js "111.4"; js "111.444"; js "111.444.7";
     js "111.444.777"; js "111.444.777-3"; js "111.444.777-35"].
Proof. vm_compute. reflexivity. Qed.

Example maskCep_typing :
  List.map maskCep
    [js ""; js "0131"; js "01310"; js "013109"; js "013109301"]
  = [js ""; js "0131"; js "01310"; js "01310-9"; js "01310-930"].
Proof. vm_compute. reflexivity. Qed.

Example eager_three : cpf_layout_eager (js "111") = js "111.".
Proof. vm_compute. reflexivity. Qed.

Example eager_full : cpf_layout_eager (js "11144477735") = js "111.444.777-35".
Proof. vm_compute. reflexivity. Qed.

(** ** Digits and separators *)

Lemma digit_not_dot c : is_digit c = true -> is_chr dot c = false.
Proof.
  unfold is_digit, is_chr, dot. intros H.
  apply andb_true_iff in H as [H _]. apply N.leb_le in H.
  apply N.eqb_neq. lia.
Qed.

Lemma digit_not_hyphen c : is_digit c = true -> is_chr hyphen c = false.
Proof.
  unfold is_digit, is_chr, hyphen. intros H.
  apply andb_true_iff in H as [H _]. apply N.leb_le in H.
  apply N.eqb_neq. lia.
Qed.

Lemma digit_not_sep c : is_digit c = true -> is_sep c = false.
Proof.
  intros H. unfold is_sep.
  now rewrite (digit_not_dot _ H), (digit_not_hyphen _ H).
Qed.

Lemma sep_not_digit c : is_sep c = true -> is_digit c = false.
Proof.
  intros H. destruct (is_digit c) eqn:E; [|reflexivity].
  apply digit_not_sep in E. congruence.
Qed.

Lemma strip_digits s : digits (strip s).
Proof.
  apply Forall_forall. intros c Hc. now apply filter_In in Hc.
Qed.

Lemma strip_of_digits ds : digits ds -> strip ds = ds.
Proof.
  induction 1 as [|c ds Hc _ IH]; simpl; [reflexivity|].
  now rewrite Hc, IH.
Qed.

Lemma strip_idempotent s : strip (strip s) = strip s.
Proof. apply strip_of_digits, strip_digits. Qed.

Lemma digits_firstn n ds : digits ds -> digits (firstn n ds).
Proof.
  intros H. revert n.
  induction H as [|c ds Hc _ IH]; intros [|n]; simpl;
    try constructor; auto; apply IH.
Qed.

(** ** The [replace] calls of the masks *)

(** [/\D/g] with the empty replacement leaves the digit sequence. *)
Lemma replace_every_non_digits s :
  forall fuel, (List.length s < fuel)%nat ->
    replace_every fuel [Lit NonDig] [] s = strip s.
Proof.
  induction s as [|c s IH]; intros [|fuel] Hf; simpl in Hf; try lia.
  - reflexivity.
  - cbn [replace_every match_here atom_match strip filter].
    destruct (is_digit c); cbn [negb].
    + f_equal. apply IH. lia.
    + replace (List.length s <? List.length (c :: s))%nat with true
        by (symmetry; apply Nat.ltb_lt; simpl; lia).
      cbn [expand flat_map app]. apply IH. lia.
Qed.

Lemma replace_non_digits s : replace re_non_digits [] s = strip s.
Proof.
  unfold replace, re_non_digits. cbn [anchored global body].
  apply replace_every_non_digits. lia.
Qed.

Lemma punctuate_plain sep ds :
  forall i, (forall j, (i <= j)%nat -> sep j = []) -> punctuate sep i ds = ds.
Proof.
  induction ds as [|d ds IH]; intros i H; simpl; [reflexivity|].
  rewrite (H i) by lia. simpl. f_equal. apply IH.
  intros j Hj. apply H. lia.
Qed.

Lemma cep_sep_late j : (6 <= j)%nat -> cep_sep j = [].
Proof. intros H. do 6 (destruct j as [|j]; [lia|]). reflexivity. Qed.

Lemma cpf_sep_late j : (10 <= j)%nat -> cpf_sep j = [].
Proof. intros H. do 10 (destruct j as [|j]; [lia|]). reflexivity. Qed.

Ltac split_digits :=
  unfold digits in *;
  repeat match goal with
         | H : Forall _ (_ :: _) |- _ =>
             let Hc := fresh "Hd" in
             pose proof (Forall_inv H) as Hc; cbv beta in Hc;
             apply Forall_inv_tail in H
         end.

Ltac use_digit :=
  match goal with
  | H : is_digit ?c = true |- context [is_digit ?c] => rewrite H
  | H : is_digit ?c = true |- context [is_chr dot ?c] =>
      rewrite (digit_not_dot c H)
  | H : is_digit ?c = true |- context [is_chr hyphen ?c] =>
      rewrite (digit_not_hyphen c H)
  | H : is_digit ?c = true |- context [is_sep ?c] =>
      rewrite (digit_not_sep c H)
  | |- context [is_chr dot dot] => change (is_chr dot dot) with true
  | |- context [is_chr hyphen hyphen] =>
      change (is_chr hyphen hyphen) with true
  | |- context [is_digit dot] => change (is_digit dot) with false
  | |- context [is_digit hyphen] => change (is_digit hyphen) with false
  end.

Ltac run_regexp :=
  repeat (cbn [match_here take_atoms atom_match replace_first
                 expand flat_map nth Nat.sub app negb];
          try use_digit).

(** [/^(\d{5})(\d)/ -> '$1-$2'] on a digit sequence. *)
Lemma replace_cep ds :
  digits ds -> replace re_cep [Grp 1; Txt hyphen; Grp 2] ds = cep_layout ds.
Proof.
  intros H. unfold replace, re_cep, cep_layout, replace_anchored.
  cbn [anchored body].
  do 6 (destruct ds as [|? ds];
        [split_digits; run_regexp; reflexivity|]).
  split_digits. run_regexp. cbn [punctuate cep_sep app].
  repeat f_equal. symmetry. apply punctuate_plain, cep_sep_late.
Qed.

(** The three punctuation steps of [maskCpf] on a digit sequence:
    [/^(\d{3})(\d)/ -> '$1.$2'], then
    [/^(\d{3})\.(\d{3})(\d)/ -> '$1.$2.$3'], then
    [/\.(\d{3})(\d)/ -> '.$1-$2']. *)
Lemma replace_cpf ds :
  digits ds ->
  replace re_cpf3 [Txt dot; Grp 1; Txt hyphen; Grp 2]
    (replace re_cpf2 [Grp 1; Txt dot; Grp 2; Txt dot; Grp 3]
       (replace re_cpf1 [Grp 1; Txt dot; Grp 2] ds))
  = cpf_layout ds.
Proof.
  intros H. unfold replace, re_cpf1, re_cpf2, re_cpf3, cpf_layout,
    replace_anchored.
  cbn [anchored body global].
  do 10 (destruct ds as [|? ds];
         [split_digits; run_regexp; reflexivity|]).
  split_digits. run_regexp. cbn [punctuate cpf_sep app].
  repeat f_equal. symmetry. apply punctuate_plain, cpf_sep_late.
Qed.

(** ** Punctuating a digit sequence *)

Section Punctuate.

Variable sep : nat -> jsstring.
Hypothesis sep_ok : sep_table sep.

Lemma unpunctuate_punctuate ds :
  digits ds -> forall i, unpunctuate (punctuate sep i ds) = ds.
Proof.
  induction 1 as [|d ds Hd _ IH]; intros i; simpl; [reflexivity|].
  unfold unpunctuate in *. rewrite filter_app. simpl.
  rewrite (digit_not_sep d Hd). simpl. rewrite IH.
  destruct (sep_ok i) as [E|[c [E Hc]]]; rewrite E; simpl;
    [|rewrite Hc]; reflexivity.
Qed.

Lemma strip_punctuate ds :
  digits ds -> forall i, strip (punctuate sep i ds) = ds.
Proof.
  induction 1 as [|d ds Hd _ IH]; intros i; simpl; [reflexivity|].
  unfold strip in *. rewrite filter_app. simpl. rewrite Hd, IH.
  destruct (sep_ok i) as [E|[c [E Hc]]]; rewrite E; simpl;
    [|rewrite (sep_not_digit c Hc)]; reflexivity.
Qed.

Lemma charset_punctuate ds :
  digits ds -> forall i, mask_charset (punctuate sep i ds) = true.
Proof.
  induction 1 as [|d ds Hd _ IH]; intros i; simpl; [reflexivity|].
  unfold mask_charset in *. rewrite forallb_app. simpl.
  rewrite Hd, IH. simpl.
  destruct (sep_ok i) as [E|[c [E Hc]]]; rewrite E; simpl;
    [|rewrite Hc, orb_true_r]; reflexivity.
Qed.

Lemma seps_lead_digits_punctuate ds :
  digits ds -> forall i, seps_lead_digits (punctuate sep i ds) = true.
Proof.
  induction 1 as [|d ds Hd _ IH]; intros i; simpl; [reflexivity|].
  destruct (sep_ok i) as [E|[c [E Hc]]]; rewrite E; simpl.
  - now rewrite (digit_not_sep d Hd), IH.
  - now rewrite Hc, Hd, (digit_not_sep d Hd), IH.
Qed.

End Punctuate.

Lemma cpf_sep_table : sep_table cpf_sep.
Proof.
  intros j. do 10 (destruct j as [|j]; [simpl; eauto|]); simpl; eauto.
Qed.

Lemma cep_sep_table : sep_table cep_sep.
Proof.
  intros j. do 6 (destruct j as [|j]; [simpl; eauto|]); simpl; eauto.
Qed.

Lemma seps_lead_digits_end s :
  seps_lead_digits s = true -> ends_in_sep s = false.
Proof.
  induction s as [|c [|d s] IH]; simpl in *; intros H; [reflexivity| |].
  - destruct (is_sep c); [discriminate|reflexivity].
  - apply IH. apply andb_true_iff in H. tauto.
Qed.

(** ** The masks as layouts of the digit sequence *)

Lemma firstn_cep_layout ds :
  firstn 9 (cep_layout ds) = cep_layout (firstn 8 ds).
Proof.
  unfold cep_layout.
  do 8 (destruct ds as [|? ds]; [reflexivity|]). reflexivity.
Qed.

Lemma firstn_cpf_layout ds :
  firstn 14 (cpf_layout ds) = cpf_layout (firstn 11 ds).
Proof.
  unfold cpf_layout.
  do 11 (destruct ds as [|? ds]; [reflexivity|]). reflexivity.
Qed.

Lemma maskCep_layout s : maskCep s = cep_layout (firstn 8 (strip s)).
Proof.
  unfold maskCep, slice. cbn [Nat.sub skipn].
  rewrite replace_non_digits, replace_cep by apply strip_digits.
  apply firstn_cep_layout.
Qed.

Lemma maskCpf_layout s : maskCpf s = cpf_layout (firstn 11 (strip s)).
Proof.
  unfold maskCpf, slice. cbn [Nat.sub skipn].
  rewrite replace_non_digits, replace_cpf by apply strip_digits.
  apply firstn_cpf_layout.
Qed.

Lemma strip_maskCpf s : strip (maskCpf s) = firstn 11 (strip s).
Proof.
  rewrite maskCpf_layout. apply strip_punctuate.
  - apply cpf_sep_table.
  - apply digits_firstn, strip_digits.
Qed.

Lemma strip_maskCep s : strip (maskCep s) = firstn 8 (strip s).
Proof.
  rewrite maskCep_layout. apply strip_punctuate.
  - apply cep_sep_table.
  - apply digits_firstn, strip_digits.
Qed.

Lemma cep_layout_cases ds :
  cep_layout ds =
  if (6 <=? List.length ds)%nat
  then firstn 5 ds ++ hyphen :: skipn 5 ds
  else ds.
Proof.
  unfold cep_layout.
  do 6 (destruct ds as [|? ds]; [reflexivity|]).
  cbn [punctuate cep_sep app List.length Nat.leb firstn skipn].
  repeat f_equal. apply punctuate_plain, cep_sep_late.
Qed.

Lemma cpf_layout_groups ds : cpf_layout ds = cpf_groups ds.
Proof.
  unfold cpf_layout, cpf_groups.
  do 10 (destruct ds as [|? ds]; [reflexivity|]).
  cbn [punctuate cpf_sep app List.length Nat.leb firstn skipn].
  repeat f_equal. apply punctuate_plain, cpf_sep_late.
Qed.

Lemma positions_from_spec c s :
  forall i k, In k (positions_from i c s)
              <-> (i <= k)%nat /\ nth_error s (k - i) = Some c.
Proof.
  induction s as [|x s IH]; intros i k; simpl.
  - split; [tauto|]. intros [_ H]. destruct (k - i)%nat; discriminate.
  - unfold is_chr at 1. destruct (N.eqb_spec x c) as [->|Hx]; simpl;
      rewrite IH; split.
    + intros [<-|[H1 H2]].
      * split; [lia|]. now rewrite Nat.sub_diag.
      * split; [lia|]. replace (k - i)%nat with (S (k - S i)) by lia.
        exact H2.
    + intros [H1 H2]. destruct (k - i)%nat as [|m] eqn:E.
      * left. lia.
      * right. split; [lia|]. replace (k - S i)%nat with m by lia.
        exact H2.
    + intros [H1 H2]. split; [lia|].
      replace (k - i)%nat with (S (k - S i)) by lia. exact H2.
    + intros [H1 H2]. destruct (k - i)%nat as [|m] eqn:E.
      * simpl in H2. congruence.
      * split; [lia|]. replace (k - S i)%nat with m by lia. exact H2.
Qed.

(** [positions c s] lists exactly the indices of [s] that hold [c]. *)
Lemma positions_spec c s k :
  In k (positions c s) <-> nth_error s k = Some c.
Proof.
  unfold positions. rewrite positions_from_spec, Nat.sub_0_r.
  split; [tauto|]. split; [lia|assumption].
Qed.

Ltac run_mask :=
  repeat (cbn [firstn skipn punctuate cep_sep cpf_sep app List.length
                 Nat.leb positions_from existsb orb];
          try use_digit).

Lemma maskCep_hyphen_positions s :
  positions hyphen (maskCep s)
  = if (6 <=? List.length (strip s))%nat then [5%nat] else [].
Proof.
  rewrite maskCep_layout. unfold positions, cep_layout.
  pose proof (strip_digits s) as H. destruct (strip s) as [|? ds].
  { reflexivity. }
  do 7 (destruct ds as [|? ds];
        [split_digits; run_mask; reflexivity|]).
  split_digits. run_mask. reflexivity.
Qed.

Lemma maskCep_has_hyphen s :
  existsb (is_chr hyphen) (maskCep s) = (6 <=? List.length (strip s))%nat.
Proof.
  rewrite maskCep_layout. unfold cep_layout.
  pose proof (strip_digits s) as H. destruct (strip s) as [|? ds].
  { reflexivity. }
  do 7 (destruct ds as [|? ds];
        [split_digits; run_mask; reflexivity|]).
  split_digits. run_mask. reflexivity.
Qed.

Lemma length_maskCep s : (List.length (maskCep s) <= 9)%nat.
Proof.
  unfold maskCep, slice. cbn [Nat.sub skipn]. apply firstn_le_length.
Qed.

Lemma length_maskCpf s : (List.length (maskCpf s) <= 14)%nat.
Proof.
  unfold maskCpf, slice. cbn [Nat.sub skipn]. apply firstn_le_length.
Qed.

(** ** The masks *)

(** C1.  Removing the separators from [maskCpf s] gives back the first 11
    digits of [s] (all of its digits when there are fewer): no digit is
    dropped, moved or made up.  Removing every non-digit gives the same,
    and the number of digits kept is the smaller of 11 and the number of
    digits of [s]. *)
Theorem maskCpf_keeps_digits (s : jsstring) :
  unpunctuate (maskCpf s) = firstn 11 (strip s)
  /\ strip (maskCpf s) = firstn 11 (strip s)
  /\ List.length (unpunctuate (maskCpf s))
     = Nat.min 11 (List.length (strip s)).
Proof.
  assert (E : unpunctuate (maskCpf s) = firstn 11 (strip s)).
  { rewrite maskCpf_layout. apply unpunctuate_punctuate.
    - apply cpf_sep_table.
    - apply digits_firstn, strip_digits. }
  repeat split.
  - exact E.
  - apply strip_maskCpf.
  - rewrite E. apply length_firstn.
Qed.

(** C3.  Both masks are idempotent: masking a masked value changes
    nothing. *)
Theorem masks_idempotent (s : jsstring) :
  maskCpf (maskCpf s) = maskCpf s /\ maskCep (maskCep s) = maskCep s.
Proof.
  split.
  - rewrite (maskCpf_layout (maskCpf s)), strip_maskCpf, firstn_firstn.
    symmetry. apply maskCpf_layout.
  - rewrite (maskCep_layout (maskCep s)), strip_maskCep, firstn_firstn.
    symmetry. apply maskCep_layout.
Qed.

(** C4.  [maskCep s] has at most 9 code units; it holds a hyphen at index
    5 when [s] has six digits or more and no hyphen otherwise, so never
    more than one; and its digits are the first 8 digits of [s] (all of
    them when there are fewer). *)
Theorem maskCep_shape (s : jsstring) :
  (List.length (maskCep s) <= 9)%nat
  /\ positions hyphen (maskCep s)
     = (if (6 <=? List.length (strip s))%nat then [5%nat] else [])
  /\ (List.length (positions hyphen (maskCep s)) <= 1)%nat
  /\ unpunctuate (maskCep s) = firstn 8 (strip s)
  /\ strip (maskCep s) = firstn 8 (strip s).
Proof.
  repeat split.
  - apply length_maskCep.
  - apply maskCep_hyphen_positions.
  - rewrite maskCep_hyphen_positions.
    destruct (6 <=? List.length (strip s))%nat; simpl; lia.
  - rewrite maskCep_layout. apply unpunctuate_punctuate.
    + apply cep_sep_table.
    + apply digits_firstn, strip_digits.
  - apply strip_maskCep.
Qed.

(** C7, as the code has it.  [maskCpf s] lays out the first 11 digits of
    [s] as NNN.NNN.NNN-NN, a separator appearing once the digit after it
    is present: the first dot with the 4th digit, the second dot with the
    7th, the hyphen with the 10th.  The result has at most 14 code units,
    and the digits 11144477735 come out as 111.444.777-35. *)
Theorem maskCpf_progressive (s : jsstring) :
  maskCpf s = cpf_groups (firstn 11 (strip s))
  /\ maskCpf s = cpf_layout (firstn 11 (strip s))
  /\ (List.length (maskCpf s) <= 14)%nat
  /\ maskCpf (js "11144477735") = js "111.444.777-35".
Proof.
  repeat split.
  - rewrite maskCpf_layout. apply cpf_layout_groups.
  - apply maskCpf_layout.
  - apply length_maskCpf.
Qed.

(** C7 as worded fails on three digits: the third digit is present and no
    dot follows it, where a layout that prints each separator right
    behind its digit would show one. *)
Lemma maskCpf_three_digits_bare :
  maskCpf (js "111") = js "111"
  /\ cpf_layout_eager (strip (js "111")) = js "111."
  /\ existsb (is_chr dot) (maskCpf (js "111")) = false
  /\ maskCpf (js "111") <> cpf_layout_eager (strip (js "111")).
Proof.
  split; [reflexivity|]. split; [reflexivity|]. split; [reflexivity|].
  discriminate.
Qed.

(** C8.  [maskCep] removes the non-digits, puts a hyphen right after the
    fifth digit exactly when there are six digits or more, and keeps the
    first 9 code units of that. *)
Theorem maskCep_steps (s : jsstring) :
  maskCep s = postal_steps s
  /\ existsb (is_chr hyphen) (maskCep s)
     = (6 <=? List.length (strip s))%nat
  /\ maskCep (js "01310930") = js "01310-930"
  /\ maskCep (js "0131") = js "0131".
Proof.
  repeat split.
  - unfold maskCep, postal_steps, slice. cbn [Nat.sub skipn].
    rewrite replace_non_digits, replace_cep by apply strip_digits.
    now rewrite cep_layout_cases.
  - apply maskCep_has_hyphen.
Qed.

(** C9.  A mask sees only the digits of its input: masking [s] and
    masking its digit sequence give the same result. *)
Theorem masks_depend_on_digits (s : jsstring) :
  maskCpf s = maskCpf (strip s) /\ maskCep s = maskCep (strip s).
Proof.
  split.
  - unfold maskCpf. rewrite !replace_non_digits.
    now rewrite strip_idempotent.
  - unfold maskCep. rewrite !replace_non_digits.
    now rewrite strip_idempotent.
Qed.

(** Two inputs with the same digits, whatever is typed between them, are
    masked alike. *)
Corollary masks_ignore_noise (s t : jsstring) :
  strip s = strip t -> maskCpf s = maskCpf t /\ maskCep s = maskCep t.
Proof.
  intros E. now rewrite !maskCpf_layout, !maskCep_layout, E.
Qed.

(** C10.  A masked value is made of digits, dots and hyphens only, every
    separator in it is immediately followed by a digit, and so it never
    ends in a separator: three digits stay bare under [maskCpf], five
    under [maskCep]. *)
Theorem masks_wellformed (s : jsstring) :
  (mask_charset (maskCpf s) = true
   /\ seps_lead_digits (maskCpf s) = true
   /\ ends_in_sep (maskCpf s) = false)
  /\ (mask_charset (maskCep s) = true
      /\ seps_lead_digits (maskCep s) = true
      /\ ends_in_sep (maskCep s) = false)
  /\ maskCpf (js "111") = js "111"
  /\ maskCep (js "01310") = js "01310".
Proof.
  assert (Hp : digits (firstn 11 (strip s)))
    by apply digits_firstn, strip_digits.
  assert (He : digits (firstn 8 (strip s)))
    by apply digits_firstn, strip_digits.
  assert (Lp : seps_lead_digits (maskCpf s) = true).
  { rewrite maskCpf_layout.
    apply seps_lead_digits_punctuate; [apply cpf_sep_table|exact Hp]. }
  assert (Le : seps_lead_digits (maskCep s) = true).
  { rewrite maskCep_layout.
    apply seps_lead_digits_punctuate; [apply cep_sep_table|exact He]. }
  repeat split; auto using seps_lead_digits_end.
  - rewrite maskCpf_layout.
    apply charset_punctuate; [apply cpf_sep_table|exact Hp].
  - rewrite maskCep_layout.
    apply charset_punctuate; [apply cep_sep_table|exact He].
Qed.

(** ** The checksum validator *)

Lemma validateCPF_strip s : validateCPF (strip s) = validateCPF s.
Proof. unfold validateCPF. now rewrite strip_idempotent. Qed.

Lemma validateCPF_wrong_length s :
  List.length (strip s) <> 11%nat -> validateCPF s = false.
Proof.
  intros H. unfold validateCPF.
  destruct (Nat.eqb_spec (List.length (strip s)) 11); [contradiction|].
  reflexivity.
Qed.

Lemma all_identical_repeat d n : all_identical (repeat d n) = true.
Proof.
  destruct n as [|n]; [reflexivity|]. simpl.
  induction n as [|n IH]; simpl; [reflexivity|].
  now rewrite N.eqb_refl, IH.
Qed.

Lemma all_identical_spec ds :
  all_identical ds = true <-> ds = repeat (hd 0 ds) (List.length ds).
Proof.
  split.
  - destruct ds as [|d ds]; [reflexivity|]. simpl. intros H. f_equal.
    induction ds as [|x ds IH]; [reflexivity|]. simpl in *.
    apply andb_true_iff in H as [Hx H]. apply N.eqb_eq in Hx.
    subst x. f_equal. now apply IH.
  - intros ->. apply all_identical_repeat.
Qed.

(** With 11 digits at hand, the two checks of the validator are the two
    weight tables of the specification. *)
Lemma checks_spelled ds :
  List.length ds = 11%nat ->
  first_check ds && second_check ds = true <-> passes_checksum ds.
Proof.
  intros L.
  do 11 (destruct ds as [|? ds]; [discriminate L|]).
  destruct ds; [clear L|discriminate L].
  unfold first_check, second_check, passes_checksum, check_digit,
    expected_digit.
  match goal with
  | |- context [weighted_sum 10 ?l] =>
      replace (weighted_sum 10 l)
        with (dot_product [10; 9; 8; 7; 6; 5; 4; 3; 2]
                (List.map digit_value l))
        by (unfold dot_product;
            cbn [weighted_sum firstn List.map combine fold_right fst snd];
            lia)
  end.
  match goal with
  | |- context [weighted_sum 11 ?l] =>
      replace (weighted_sum 11 l)
        with (dot_product [11; 10; 9; 8; 7; 6; 5; 4; 3; 2]
                (List.map digit_value l))
        by (unfold dot_product;
            cbn [weighted_sum firstn List.map combine fold_right fst snd];
            lia)
  end.
  unfold dot_product.
  cbn [firstn List.map combine fold_right fst snd nth].
  rewrite andb_true_iff, !N.eqb_eq.
  reflexivity.
Qed.

Lemma repeated_digit_passes d :
  is_digit d = true -> passes_checksum (repeat d 11).
Proof.
  unfold is_digit. intros H. apply andb_true_iff in H as [Hl Hu].
  apply N.leb_le in Hl. apply N.leb_le in Hu.
  assert (E : d = 48 \/ d = 49 \/ d = 50 \/ d = 51 \/ d = 52 \/ d = 53
              \/ d = 54 \/ d = 55 \/ d = 56 \/ d = 57) by lia.
  repeat (destruct E as [->|E]; [vm_compute; auto|]).
  subst d. vm_compute. auto.
Qed.

(** C2, with the two rejection rules made explicit.  [validateCPF s] is
    true exactly when the digit sequence of [s] has 11 digits, they are
    not all the same, and both check digits agree: digits 1 to 9 weighted
    10, 9, ..., 2, summed, reduced modulo 11, give the 10th digit (0 when
    the remainder is below 2, else 11 minus the remainder), and digits 1
    to 10 weighted 11, 10, ..., 2 give the 11th in the same way.
    111.444.777-35 is valid, 123.456.789-00 is not. *)
Theorem validateCPF_checksum (s : jsstring) :
  (validateCPF s = true
   <-> List.length (strip s) = 11%nat
       /\ all_identical (strip s) = false
       /\ passes_checksum (strip s))
  /\ validateCPF (js "111.444.777-35") = true
  /\ validateCPF (js "123.456.789-00") = false.
Proof.
  split; [|split; reflexivity].
  unfold validateCPF.
  destruct (Nat.eqb_spec (List.length (strip s)) 11) as [L|L];
    cbn [negb].
  - rewrite <- (checks_spelled _ L).
    destruct (all_identical (strip s)).
    + split; [discriminate|]. intros [_ [H _]]. discriminate H.
    + tauto.
  - split; [discriminate|]. tauto.
Qed.

(** C2 as worded fails on the repeated digits: 111.111.111-11 passes both
    check digits and is not valid. *)
Lemma validateCPF_not_checksum_alone :
  passes_checksum (strip (js "111.111.111-11"))
  /\ validateCPF (js "111.111.111-11") = false
  /\ ~ (validateCPF (js "111.111.111-11") = true
        <-> passes_checksum (strip (js "111.111.111-11"))).
Proof.
  assert (P : passes_checksum (strip (js "111.111.111-11")))
    by (vm_compute; auto).
  split; [exact P|]. split; [reflexivity|].
  intros [_ H]. specialize (H P). discriminate H.
Qed.

(** C5.  An input whose digit sequence is one digit written 11 times is
    not valid, although that sequence passes both check digits. *)
Theorem validateCPF_rejects_repeated (s : jsstring) (d : code_unit) :
  is_digit d = true ->
  strip s = repeat d 11 ->
  validateCPF s = false /\ passes_checksum (strip s).
Proof.
  intros Hd E. split.
  - unfold validateCPF. rewrite E, all_identical_repeat. reflexivity.
  - rewrite E. now apply repeated_digit_passes.
Qed.

Lemma validateCPF_rejects_repeated_witness :
  is_digit 49 = true
  /\ strip (js "111.111.111-11") = repeat 49 11
  /\ validateCPF (js "111.111.111-11") = false
  /\ passes_checksum (strip (js "111.111.111-11")).
Proof.
  split; [reflexivity|]. split; [reflexivity|].
  apply (validateCPF_rejects_repeated (js "111.111.111-11") 49);
    reflexivity.
Defined.

Example validateCPF_zeros : validateCPF (js "00000000000") = false.
Proof. reflexivity. Qed.

Example validateCPF_ones : validateCPF (js "11111111111") = false.
Proof. reflexivity. Qed.

(** C6.  [validateCPF] answers for every string, with [true] or [false],
    and never otherwise.  It answers [false] whenever the digit sequence
    does not have 11 digits, as for "abc" and for the empty string.  It
    looks at the digit sequence only, so a masked and a raw writing of
    the same digits get the same answer. *)
Theorem validateCPF_total (s t : jsstring) :
  (validateCPF s = true \/ validateCPF s = false)
  /\ (List.length (strip s) <> 11%nat -> validateCPF s = false)
  /\ (strip s = strip t -> validateCPF s = validateCPF t)
  /\ validateCPF (strip s) = validateCPF s
  /\ validateCPF (cpf_layout (strip s)) = validateCPF s
  /\ validateCPF (js "abc") = false
  /\ validateCPF (js "") = false.
Proof.
  split; [destruct (validateCPF s); auto|].
  split; [apply validateCPF_wrong_length|].
  split; [intros E; unfold validateCPF; now rewrite E|].
  split; [apply validateCPF_strip|].
  split; [|split; reflexivity].
  unfold validateCPF, cpf_layout.
  rewrite strip_punctuate;
    [reflexivity|apply cpf_sep_table|apply strip_digits].
Qed.

Lemma validateCPF_total_witness :
  (List.length (strip (js "12.34")) <> 11%nat
   /\ validateCPF (js "12.34") = false)
  /\ (strip (js "111.444.777-35") = strip (js "11144477735")
      /\ validateCPF (js "111.444.777-35")
         = validateCPF (js "11144477735")).
Proof.
  split; split.
  - discriminate.
  - apply (proj1 (proj2 (validateCPF_total (js "12.34") (js "")))).
    discriminate.
  - reflexivity.
  - apply (proj1 (proj2 (proj2
             (validateCPF_total (js "111.444.777-35")
                                (js "11144477735"))))).
    reflexivity.
Defined.

(** ** The schema rules around the masks and the validator *)

(** A masked postal code passes the schema once 8 digits are typed. *)
Remark schema_cep_masked s :
  schema_cep (maskCep s) = (8 <=? List.length (strip s))%nat.
Proof.
  unfold schema_cep. rewrite maskCep_layout. unfold cep_layout.
  destruct (strip s) as [|? ds]; [reflexivity|].
  do 7 (destruct ds as [|? ds]; [reflexivity|]). reflexivity.
Qed.

(** On a masked value the length check of the schema adds nothing to the
    validator: 11 digits laid out take 14 code units. *)
Remark schema_cpf_masked s :
  schema_cpf (maskCpf s) = validateCPF (maskCpf s).
Proof.
  unfold schema_cpf.
  destruct (validateCPF (maskCpf s)) eqn:V;
    [|now rewrite andb_false_r].
  rewrite andb_true_r.
  assert (L : List.length (strip (maskCpf s)) = 11%nat).
  { destruct (Nat.eq_dec (List.length (strip (maskCpf s))) 11) as [E|E];
      [exact E|].
    apply validateCPF_wrong_length in E. congruence. }
  rewrite strip_maskCpf in L. rewrite maskCpf_layout. unfold cpf_layout.
  destruct (firstn 11 (strip s)) as [|? ds]; [discriminate L|].
  do 10 (destruct ds as [|? ds]; [discriminate L|]). reflexivity.
Qed.

(** The schema, unlike the validator, tells a raw writing from a masked
    one. *)
Remark schema_cpf_raw :
  validateCPF (js "11144477735") = true
  /\ schema_cpf (js "11144477735") = false
  /\ schema_cpf (js "111.444.777-35") = true.
Proof. repeat split. Qed.

(** ** Typing into a masked field *)

Lemma strip_app a b : strip (a ++ b) = strip a ++ strip b.
Proof. apply filter_app. Qed.

Lemma firstn_firstn_app (n : nat) (a b : jsstring) :
  firstn n (firstn n a ++ b) = firstn n (a ++ b).
Proof.
  revert n. induction a as [|x a IH]; intros [|n]; simpl; try reflexivity.
  now rewrite IH.
Qed.

Lemma punctuate_app sep a b :
  forall i,
    punctuate sep i (a ++ b)
    = punctuate sep i a ++ punctuate sep (i + List.length a) b.
Proof.
  induction a as [|x a IH]; intros i; simpl.
  - now rewrite Nat.add_0_r.
  - rewrite IH, <- app_assoc. simpl.
    now rewrite Nat.add_succ_r.
Qed.

Lemma removelast_punctuate sep ds :
  sep_table sep -> digits ds ->
  forall i, strip (removelast (punctuate sep i ds)) = removelast ds.
Proof.
  intros T H. induction H as [|d ds Hd Hds IH]; intros i; [reflexivity|].
  cbn [punctuate].
  destruct ds as [|e ds].
  - cbn [punctuate]. rewrite removelast_last.
    destruct (T i) as [E|[c [E Hc]]]; rewrite E; simpl;
      [|rewrite (sep_not_digit c Hc)]; reflexivity.
  - assert (N : d :: punctuate sep (S i) (e :: ds) <> []) by discriminate.
    rewrite (removelast_app (sep i) N).
    assert (M : punctuate sep (S i) (e :: ds) <> []).
    { cbn [punctuate]. destruct (sep (S i)); discriminate. }
    change (d :: punctuate sep (S i) (e :: ds))
      with ([d] ++ punctuate sep (S i) (e :: ds)).
    rewrite (removelast_app [d] M), !strip_app, IH.
    simpl. rewrite Hd.
    destruct (T i) as [E|[c [E Hc]]]; rewrite E; simpl;
      [|rewrite (sep_not_digit c Hc)]; reflexivity.
Qed.

Lemma removelast_firstn_short (n : nat) (ds : jsstring) :
  firstn n (removelast (firstn n ds)) = removelast (firstn n ds).
Proof.
  apply firstn_all2.
  pose proof (firstn_le_length n ds) as L.
  destruct (firstn n ds) as [|x l]; [simpl; lia|].
  assert (E : List.length (removelast (x :: l)) = List.length l).
  { destruct (exists_last (l := x :: l)) as [l' [y E]]; [discriminate|].
    rewrite E, removelast_last.
    apply (f_equal (@List.length _)) in E.
    rewrite length_app in E. simpl in E. lia. }
  rewrite E. simpl in L. lia.
Qed.

(** X1.  Typing never rewrites what a field already shows: the mask of a
    longer input starts with the mask of the shorter one, and goes on
    with the new digits that still fit, each behind the separator due at
    its place. *)
Theorem masks_grow (s t : jsstring) :
  maskCpf (s ++ t)
  = maskCpf s
    ++ punctuate cpf_sep (Nat.min 11 (List.length (strip s)))
         (firstn (11 - List.length (strip s)) (strip t))
  /\ maskCep (s ++ t)
     = maskCep s
       ++ punctuate cep_sep (Nat.min 8 (List.length (strip s)))
            (firstn (8 - List.length (strip s)) (strip t)).
Proof.
  rewrite !maskCpf_layout, !maskCep_layout, strip_app, !firstn_app.
  unfold cpf_layout, cep_layout.
  rewrite !punctuate_app, !length_firstn. auto.
Qed.

(** X2.  The fields store what the browser reports, which is the shown
    (masked) value with the new keys in it.  Masking that again gives the
    mask of everything typed: [mask (mask s ++ t) = mask (s ++ t)]. *)
Theorem masks_retype (s t : jsstring) :
  maskCpf (maskCpf s ++ t) = maskCpf (s ++ t)
  /\ maskCep (maskCep s ++ t) = maskCep (s ++ t).
Proof.
  split.
  - rewrite (maskCpf_layout (maskCpf s ++ t)), (maskCpf_layout (s ++ t)).
    now rewrite !strip_app, strip_maskCpf, firstn_firstn_app.
  - rewrite (maskCep_layout (maskCep s ++ t)), (maskCep_layout (s ++ t)).
    now rewrite !strip_app, strip_maskCep, firstn_firstn_app.
Qed.

(** X3.  Deleting the last shown character deletes exactly the last shown
    digit, with the separator in front of it when it was the first of its
    group: the field never gets stuck on a separator. *)
Theorem masks_backspace (s : jsstring) :
  maskCpf (removelast (maskCpf s))
  = cpf_layout (removelast (firstn 11 (strip s)))
  /\ maskCep (removelast (maskCep s))
     = cep_layout (removelast (firstn 8 (strip s))).
Proof.
  split.
  - rewrite (maskCpf_layout (removelast _)), (maskCpf_layout s).
    unfold cpf_layout at 2.
    rewrite removelast_punctuate
      by (apply cpf_sep_table || apply digits_firstn, strip_digits).
    now rewrite removelast_firstn_short.
  - rewrite (maskCep_layout (removelast _)), (maskCep_layout s).
    unfold cep_layout at 2.
    rewrite removelast_punctuate
      by (apply cep_sep_table || apply digits_firstn, strip_digits).
    now rewrite removelast_firstn_short.
Qed.

(** X4.  A full field ignores further typing: once 11 digits (8 for the
    postal code) are in, whatever is appended leaves the shown value as
    it is. *)
Theorem masks_saturate (s t : jsstring) :
  ((11 <= List.length (strip s))%nat -> maskCpf (s ++ t) = maskCpf s)
  /\ ((8 <= List.length (strip s))%nat -> maskCep (s ++ t) = maskCep s).
Proof.
  split; intros L.
  - rewrite !maskCpf_layout, strip_app, firstn_app.
    replace (11 - List.length (strip s))%nat with 0%nat by lia.
    simpl. now rewrite app_nil_r.
  - rewrite !maskCep_layout, strip_app, firstn_app.
    replace (8 - List.length (strip s))%nat with 0%nat by lia.
    simpl. now rewrite app_nil_r.
Qed.

Lemma masks_saturate_witness :
  ((11 <= List.length (strip (js "111.444.777-35")))%nat
   /\ maskCpf (js "111.444.777-35" ++ js "9x")
      = maskCpf (js "111.444.777-35"))
  /\ ((8 <= List.length (strip (js "01310-930")))%nat
      /\ maskCep (js "01310-930" ++ js "77") = maskCep (js "01310-930")).
Proof.
  split; split.
  - simpl. lia.
  - apply (proj1 (masks_saturate (js "111.444.777-35") (js "9x"))).
    simpl. lia.
  - simpl. lia.
  - apply (proj2 (masks_saturate (js "01310-930") (js "77"))).
    simpl. lia.
Defined.

(** ** Size and shape of a masked value *)

Lemma length_cpf_layout ds :
  (List.length ds <= 11)%nat ->
  List.length (cpf_layout ds)
  = (List.length ds + (List.length ds - 1) / 3)%nat.
Proof.
  intros L. unfold cpf_layout.
  do 12 (destruct ds as [|? ds]; [reflexivity|]).
  simpl in L. lia.
Qed.

Lemma length_cep_layout ds :
  (List.length ds <= 8)%nat ->
  List.length (cep_layout ds)
  = (List.length ds + if (6 <=? List.length ds)%nat then 1 else 0)%nat.
Proof.
  intros L. unfold cep_layout.
  do 9 (destruct ds as [|? ds]; [reflexivity|]).
  simpl in L. lia.
Qed.

Lemma length_maskCpf_exact s :
  List.length (maskCpf s)
  = (Nat.min 11 (List.length (strip s))
     + (Nat.min 11 (List.length (strip s)) - 1) / 3)%nat.
Proof.
  rewrite maskCpf_layout, length_cpf_layout; rewrite length_firstn;
    [reflexivity|lia].
Qed.

Lemma length_maskCep_exact s :
  List.length (maskCep s)
  = (Nat.min 8 (List.length (strip s))
     + if (6 <=? Nat.min 8 (List.length (strip s)))%nat then 1 else 0)%nat.
Proof.
  rewrite maskCep_layout, length_cep_layout; rewrite length_firstn;
    [reflexivity|lia].
Qed.

(** X5.  The size of a masked value follows from the number of digits
    typed: with [n] digits kept (at most 11), [maskCpf] shows
    [n + (n - 1) / 3] code units, one separator for each started group
    after the first; with [m] digits kept (at most 8), [maskCep] shows
    [m], and one more from the sixth digit on. *)
Theorem mask_lengths (s : jsstring) :
  List.length (maskCpf s)
  = (Nat.min 11 (List.length (strip s))
     + (Nat.min 11 (List.length (strip s)) - 1) / 3)%nat
  /\ List.length (maskCep s)
     = (Nat.min 8 (List.length (strip s))
        + if (6 <=? Nat.min 8 (List.length (strip s)))%nat
          then 1 else 0)%nat.
Proof.
  split; [apply length_maskCpf_exact|apply length_maskCep_exact].
Qed.

Ltac run_seps :=
  repeat (cbn [firstn skipn punctuate cep_sep cpf_sep app List.length
                 Nat.leb positions_from];
          try first
            [ use_digit
            | change (is_chr dot hyphen) with false
            | change (is_chr hyphen dot) with false ]).

(** X6.  In [maskCpf s] the dots sit at indices 3 and 7 and the hyphen at
    index 11, each from the moment the 4th, 7th and 10th digit is typed,
    and nowhere else. *)
Theorem maskCpf_separator_positions (s : jsstring) :
  positions dot (maskCpf s)
  = (if (4 <=? List.length (strip s))%nat then [3%nat] else [])
    ++ (if (7 <=? List.length (strip s))%nat then [7%nat] else [])
  /\ positions hyphen (maskCpf s)
     = (if (10 <=? List.length (strip s))%nat then [11%nat] else []).
Proof.
  rewrite maskCpf_layout. unfold positions, cpf_layout.
  pose proof (strip_digits s) as H. destruct (strip s) as [|? ds].
  { split; reflexivity. }
  do 10 (destruct ds as [|? ds];
         [split_digits; split; run_seps; reflexivity|]).
  split_digits. split; run_seps; reflexivity.
Qed.

(** X7.  The length rules of the schema on masked values: a shown CPF
    has the 14 code units [min(14)] asks for exactly when 11 digits were
    typed, whatever the refinement then says, and a shown postal code has
    the 9 of [min(9)] exactly when 8 digits were typed. *)
Theorem schema_lengths_on_masks (validate : jsstring -> bool)
  (s : jsstring) :
  cpf_rule validate (maskCpf s)
  = (11 <=? List.length (strip s))%nat && validate (maskCpf s)
  /\ schema_cep (maskCep s) = (8 <=? List.length (strip s))%nat.
Proof.
  unfold cpf_rule, schema_cep.
  rewrite length_maskCpf_exact, length_maskCep_exact.
  split; [f_equal|].
  - destruct (Nat.leb_spec 11 (List.length (strip s))) as [L|L].
    + now rewrite Nat.min_l by lia.
    + rewrite Nat.min_r by lia. apply Nat.leb_gt.
      assert (D : ((List.length (strip s) - 1) / 3 <= 3)%nat).
      { apply Nat.Div0.div_le_upper_bound. lia. }
      lia.
  - destruct (Nat.leb_spec 8 (List.length (strip s))) as [L|L].
    + now rewrite Nat.min_l by lia.
    + rewrite Nat.min_r by lia.
      destruct (6 <=? List.length (strip s))%nat; apply Nat.leb_gt; lia.
Qed.

(** ** The postal-code lookup *)

Lemma handleCepChange_cases {value : Type} (get : jsstring -> reply value)
  (cep : jsstring) :
  handleCepChange get cep
  = if (List.length (strip cep) =? 8)%nat then
      [SetLoadingCep true;
       AxiosGet (viacep_prefix ++ strip cep ++ viacep_suffix)]
      ++ match get (viacep_prefix ++ strip cep ++ viacep_suffix) with
         | Data d =>
             [SetCity (localidade d); SetState (uf d);
              SetStreet (logradouro d); SetNeighborhood (bairro d);
              SetComplement (complemento d)]
         | Rejected => [ConsoleError]
         end
      ++ [SetLoadingCep false]
    else [].
Proof. unfold handleCepChange. now rewrite replace_non_digits. Qed.

Lemma run_handleCepChange {value : Type} (get : jsstring -> reply value)
  (cep : jsstring) (st : form value) :
  run (handleCepChange get cep) st
  = if (List.length (strip cep) =? 8)%nat then
      match get (viacep_prefix ++ strip cep ++ viacep_suffix) with
      | Data d =>
          Form (cpf_value st) (cep_value st) (localidade d) (uf d)
            (logradouro d) (bairro d) (complemento d) false (logged st)
      | Rejected =>
          Form (cpf_value st) (cep_value st) (city st) (state st)
            (street st) (neighborhood st) (complement st) false
            (S (logged st))
      end
    else st.
Proof.
  rewrite handleCepChange_cases. destruct st.
  destruct (List.length (strip cep) =? 8)%nat; [|reflexivity].
  destruct (get _); reflexivity.
Qed.

Lemma requests_handleCepChange {value : Type}
  (get : jsstring -> reply value) (cep : jsstring) :
  requests (handleCepChange get cep)
  = if (List.length (strip cep) =? 8)%nat
    then [viacep_prefix ++ strip cep ++ viacep_suffix]
    else [].
Proof.
  rewrite handleCepChange_cases.
  destruct (List.length (strip cep) =? 8)%nat; [|reflexivity].
  destruct (get _); reflexivity.
Qed.

(** X8.  [handleCepChange] asks the service exactly when its argument
    holds 8 digits, and does nothing at all otherwise.  The address it
    asks for is the fixed prefix, those 8 digits and the fixed suffix:
    nothing else of what was typed reaches the URL, and two arguments
    with the same digits are handled alike. *)
Theorem lookup_needs_eight_digits {value : Type}
  (get : jsstring -> reply value) (cep : jsstring) :
  requests (handleCepChange get cep)
  = (if (List.length (strip cep) =? 8)%nat
     then [viacep_prefix ++ strip cep ++ viacep_suffix]
     else [])
  /\ (handleCepChange get cep = [] <-> List.length (strip cep) <> 8%nat)
  /\ handleCepChange get cep = handleCepChange get (strip cep).
Proof.
  split; [apply requests_handleCepChange|]. split.
  - rewrite handleCepChange_cases.
    destruct (Nat.eqb_spec (List.length (strip cep)) 8) as [E|E].
    + split; [discriminate|contradiction].
    + tauto.
  - now rewrite !handleCepChange_cases, strip_idempotent.
Qed.



Lemma run_onChangeCep {value : Type} (get : jsstring -> reply value)
  (v : jsstring) (st : form value) :
  cep_value (run (onChangeCep get v) st) = v
  /\ cpf_value (run (onChangeCep get v) st) = cpf_value st.
Proof.
  unfold onChangeCep, run. cbn [fold_left]. fold (run (handleCepChange get v)
    (step st (SetCep v))).
  rewrite run_handleCepChange. destruct st.
  destruct (List.length (strip v) =? 8)%nat; [|split; reflexivity].
  destruct (get _); split; reflexivity.
Qed.

(** X10.  A change of the CEP field stores the reported value and looks
    it up.  The field then shows the mask of that value; when a request
    goes out, it asks for exactly the digits the field shows; and a value
    with more than 8 digits is shown as a complete postal code while no
    request goes out. *)
Theorem cep_change_shows_what_it_asks {value : Type}
  (get : jsstring -> reply value) (v : jsstring) (st : form value) :
  shownCep (run (onChangeCep get v) st) = maskCep v
  /\ requests (onChangeCep get v)
     = (if (List.length (strip v) =? 8)%nat
        then [viacep_prefix
              ++ unpunctuate (shownCep (run (onChangeCep get v) st))
              ++ viacep_suffix]
        else [])
  /\ ((9 <= List.length (strip v))%nat ->
      requests (onChangeCep get v) = []
      /\ List.length (shownCep (run (onChangeCep get v) st)) = 9%nat).
Proof.
  assert (S1 : shownCep (run (onChangeCep get v) st) = maskCep v).
  { unfold shownCep. now rewrite (proj1 (run_onChangeCep get v st)). }
  assert (R : requests (onChangeCep get v)
              = requests (handleCepChange get v)) by reflexivity.
  rewrite S1, R, requests_handleCepChange.
  split; [reflexivity|]. split.
  - destruct (Nat.eqb_spec (List.length (strip v)) 8) as [E|E];
      [|reflexivity].
    rewrite maskCep_layout.
    unfold cep_layout. rewrite unpunctuate_punctuate
      by (apply cep_sep_table || apply digits_firstn, strip_digits).
    now rewrite firstn_all2 by lia.
  - intros L. split.
    + destruct (Nat.eqb_spec (List.length (strip v)) 8) as [E|E];
        [lia|reflexivity].
    + rewrite length_maskCep_exact, Nat.min_l by lia. reflexivity.
Qed.

Lemma cep_change_shows_what_it_asks_witness :
  (9 <= List.length (strip (js "013109301")))%nat
  /\ requests (onChangeCep (fun _ => @Rejected N) (js "013109301")) = []
  /\ List.length
       (shownCep (run (onChangeCep (fun _ => @Rejected N) (js "013109301"))
                    (Form [] [] 0 0 0 0 0 false 0%nat)))
     = 9%nat.
Proof.
  split; [simpl; lia|].
  apply (proj2 (proj2
           (cep_change_shows_what_it_asks (fun _ => @Rejected N)
              (js "013109301") (Form [] [] 0 0 0 0 0 false 0%nat)))).
  simpl. lia.
Defined.

(** X11.  The fields store the reported value as it is, and the schema
    reads what is stored.  Digits entered without separators are shown
    complete and, for the postal code, looked up, while the stored text
    is too short for the length rule of the schema: 11 bare digits fail
    [min(14)] whatever the refinement says, 8 bare digits fail
    [min(9)]. *)
Theorem bare_digits_fail_schema {value : Type}
  (get : jsstring -> reply value) (validate : jsstring -> bool)
  (v : jsstring) (st : form value) :
  digits v ->
  (List.length v = 11%nat ->
   List.length (shownCpf (run (onChangeCpf v) st)) = 14%nat
   /\ cpf_rule validate (cpf_value (run (onChangeCpf v) st)) = false)
  /\ (List.length v = 8%nat ->
      List.length (shownCep (run (onChangeCep get v) st)) = 9%nat
      /\ schema_cep (shownCep (run (onChangeCep get v) st)) = true
      /\ schema_cep (cep_value (run (onChangeCep get v) st)) = false
      /\ requests (onChangeCep get v)
         = [viacep_prefix ++ v ++ viacep_suffix]).
Proof.
  intros D. split; intros L.
  - assert (E : cpf_value (run (onChangeCpf v) st) = v)
      by (destruct st; reflexivity).
    unfold shownCpf. rewrite E, length_maskCpf_exact.
    rewrite (strip_of_digits v D), L. split; [reflexivity|].
    unfold cpf_rule. now rewrite L.
  - unfold shownCep. rewrite (proj1 (run_onChangeCep get v st)).
    assert (R : requests (onChangeCep get v)
                = requests (handleCepChange get v)) by reflexivity.
    rewrite R, requests_handleCepChange.
    unfold schema_cep. rewrite length_maskCep_exact.
    rewrite (strip_of_digits v D), L. repeat split.
Qed.

Lemma bare_digits_fail_schema_witness :
  digits (js "01310930")
  /\ List.length (js "01310930") = 8%nat
  /\ schema_cep
       (cep_value (run (onChangeCep (fun _ => @Rejected N) (js "01310930"))
                     (Form [] [] 0 0 0 0 0 false 0%nat)))
     = false.
Proof.
  assert (D : digits (js "01310930")) by (repeat constructor).
  split; [exact D|]. split; [reflexivity|].
  apply (proj2 (bare_digits_fail_schema (fun _ => @Rejected N)
                  (fun _ => true) (js "01310930")
                  (Form [] [] 0 0 0 0 0 false 0%nat) D)).
  reflexivity.
Defined.
